(** * sentinel_bot: the MIME body extraction and line normalisation pipeline

    A shallow embedding of [src/main.py]: the MIME walker
    [extract_text_plain_parts], the line normaliser [process_list], the
    orchestrator [parse_email] and the loop of [main], with the laws of the
    specification and further laws of the code stated over them.

    Python [str] values are modelled as [string]; an [ascii] stands for the
    code point of the same number (the Latin-1 range of Unicode).  Python
    lists are [list]s, a slice [lst[i:]] is [skipn i lst] and [lst[:n]]
    (for [0 <= n]) is [firstn n lst]. *)

From Stdlib Require Import List String Ascii Bool Arith PeanoNat ZArith Lia.
Import ListNotations.
Open Scope string_scope.
Open Scope list_scope.
Open Scope nat_scope.

(** ** Python string primitives *)

Module PyStr.

(** [str.isspace] on one character: the code points Python treats as
    whitespace that lie below 256. *)
Definition isspace (c : ascii) : bool :=
  let n := nat_of_ascii c in
  ((9 <=? n) && (n <=? 13)) || ((28 <=? n) && (n <=? 32))
  || (n =? 133) || (n =? 160).

(** Line boundaries of [str.splitlines]: LF, VT, FF, CR, FS, GS, RS, NEL
    (CR LF is handled by the splitter itself). *)
Definition is_linebreak (c : ascii) : bool :=
  let n := nat_of_ascii c in
  ((10 <=? n) && (n <=? 13)) || ((28 <=? n) && (n <=? 30)) || (n =? 133).

(** Truth value of a [str]: every string but the empty one is true. *)
Definition truthy (s : string) : bool :=
  match s with
  | EmptyString => false
  | String _ _ => true
  end.

Fixpoint lstrip (s : string) : string :=
  match s with
  | EmptyString => EmptyString
  | String c t => if isspace c then lstrip t else s
  end.

Fixpoint rstrip (s : string) : string :=
  match s with
  | EmptyString => EmptyString
  | String c t =>
      match rstrip t with
      | EmptyString => if isspace c then EmptyString else String c EmptyString
      | t' => String c t'
      end
  end.

(** [s.strip()]: whitespace removed at both ends. *)
Definition strip (s : string) : string := lstrip (rstrip s).

(** [sep.join(parts)]. *)
Fixpoint join (sep : string) (parts : list string) : string :=
  match parts with
  | [] => EmptyString
  | [x] => x
  | x :: rest => (x ++ sep ++ join sep rest)%string
  end.

Definition CR : ascii := ascii_of_nat 13.
Definition LF : ascii := ascii_of_nat 10.

(** [s.splitlines()]: [line] holds the characters of the line being read.
    A line is emitted at each boundary; what follows the last boundary is
    emitted only when it is not empty. *)
Fixpoint splitlines_from (s : string) (line : string) : list string :=
  match s with
  | EmptyString => if truthy line then [line] else []
  | String c t =>
      if is_linebreak c then
        line ::
          (if Ascii.eqb c CR then
             match t with
             | String c' t' =>
                 if Ascii.eqb c' LF then splitlines_from t' EmptyString
                 else splitlines_from t EmptyString
             | EmptyString => splitlines_from t EmptyString
             end
           else splitlines_from t EmptyString)
      else splitlines_from t (line ++ String c EmptyString)%string
  end.

Definition splitlines (s : string) : list string :=
  splitlines_from s EmptyString.

(** [str.lower] on one character of the Latin-1 range. *)
Definition lower_char (c : ascii) : ascii :=
  let n := nat_of_ascii c in
  if ((65 <=? n) && (n <=? 90))
     || ((192 <=? n) && (n <=? 222) && negb (n =? 215))
  then ascii_of_nat (n + 32) else c.

Fixpoint lower (s : string) : string :=
  match s with
  | EmptyString => EmptyString
  | String c t => String (lower_char c) (lower t)
  end.

End PyStr.

(** ** The line normaliser *)

(** [next((i for i, x in enumerate(lst) if p(x)), None)], counting from
    [i]. *)
Fixpoint next_index (p : string -> bool) (lst : list string) (i : nat)
  : option nat :=
  match lst with
  | [] => None
  | x :: rest => if p x then Some i else next_index p rest (S i)
  end.

(** The test [x.strip()] used as a condition. *)
Definition non_empty (x : string) : bool := PyStr.truthy (PyStr.strip x).

(** One turn of the collapsing loop: the new value of [collapsed_list].
    [collapsed_list[-1]] is read only when the list is not empty and
    [collapsed_list[-2]] only when it has two elements, as in the source's
    short-circuit tests. *)
Definition collapse_step (collapsed_list : list string) (item : string)
  : list string :=
  if non_empty item
     || (negb (List.length collapsed_list =? 0)
         && non_empty (last collapsed_list ""))
  then collapsed_list ++ [item]
  else if (List.length collapsed_list <? 2)
          || non_empty (nth (List.length collapsed_list - 2) collapsed_list "")
       then collapsed_list ++ [item]
       else collapsed_list.

(** The last loop: [if not item: collapsed_list[index] = "\n"]. *)
Definition blank_marker : string := String PyStr.LF EmptyString.

Definition canonicalize (item : string) : string :=
  if negb (PyStr.truthy item) then blank_marker else item.

Definition trim_leading (lst : list string) : list string :=
  match next_index non_empty lst 0 with
  | Some first_non_empty_index => skipn first_non_empty_index lst
  | None => lst
  end.

Definition trim_trailing (lst : list string) : list string :=
  match next_index non_empty (rev lst) 0 with
  | Some last_non_empty_index =>
      firstn (List.length lst - last_non_empty_index) lst
  | None => lst
  end.

Definition process_list (lst : list string) : list string :=
  let lst := trim_leading lst in
  let lst := trim_trailing lst in
  let collapsed_list := fold_left collapse_step lst [] in
  map canonicalize collapsed_list.

(** ** MIME messages and the walker *)

#[local] Set Warnings "-register-all".

(** A parsed [email.message.Message]: its header list in order, the value
    of [get_content_type()], and its payload, a list of sub-messages when
    [is_multipart()] holds and a string otherwise. *)
Inductive Message : Type :=
| Multipart (headers : list (string * string)) (content_type : string)
    (subparts : list Message)
| Leaf (headers : list (string * string)) (content_type : string)
    (payload : string).

Definition headers_of (m : Message) : list (string * string) :=
  match m with
  | Multipart h _ _ => h
  | Leaf h _ _ => h
  end.

(** [Message.get(name)]: the value of the first header whose name matches
    without regard to case, [None] when there is none.  The values are
    strings: a header with raw 8-bit bytes, for which the library hands
    out a [Header] object instead, is outside this model. *)
Fixpoint get_header (headers : list (string * string)) (name : string)
  : option string :=
  match headers with
  | [] => None
  | (k, v) :: rest =>
      if String.eqb (PyStr.lower k) (PyStr.lower name) then Some v
      else get_header rest name
  end.

Definition get (m : Message) (name : string) : option string :=
  get_header (headers_of m) name.

(** The generator, as the list of the values it yields in order. *)
Fixpoint extract_text_plain_parts (part : Message) : list string :=
  match part with
  | Multipart _ _ subparts => flat_map extract_text_plain_parts subparts
  | Leaf _ content_type payload =>
      if String.eqb content_type "text/plain" then [payload] else []
  end.

(** ** The orchestrator *)

Record datetime : Type := mk_datetime {
  year : nat; month : nat; day : nat;
  hour : nat; minute : nat; second : nat;
  utcoffset : Z  (* seconds east of UTC *)
}.

(** The [Email] dataclass.  [subject] is annotated [str], but the field
    holds whatever the constructor is given, so it is a Python value that
    may be [None]. *)
Record Email : Type := mk_Email {
  date : option datetime;
  subject : option string;
  body : string;
  attachments : list string;
  attachment_links : list string
}.

Inductive PyError : Type := TypeError | ValueError.

Inductive result (A : Type) : Type :=
| Ok (a : A)
| Raise (e : PyError).
Arguments Ok {A} a.
Arguments Raise {A} e.

Definition bind {A B : Type} (r : result A) (k : A -> result B) : result B :=
  match r with
  | Ok a => k a
  | Raise e => Raise e
  end.

Notation "x <- r ;; k" := (bind r (fun x => k))
  (at level 61, r at next level, right associativity).

Definition date_format : string := "%a, %d %b %Y %H:%M:%S %z".

(** The body of the loop over the plain-text parts: the string appended to
    [body] for one part. *)
Definition part_message (part : string) : string :=
  let lines := PyStr.splitlines part in
  let cleaned_lines := map PyStr.strip lines in
  let collapsed_lines := process_list cleaned_lines in
  PyStr.join "" collapsed_lines.

Section Parser.

(** [datetime.strptime] is the standard library's: [strptime s fmt] is
    [None] when the library raises [ValueError] because [s] does not match
    [fmt].  Called on [None] instead of a [str] it raises [TypeError]. *)
Variable strptime : string -> string -> option datetime.

Definition call_strptime (date_string : option string) (fmt : string)
  : result datetime :=
  match date_string with
  | None => Raise TypeError
  | Some s =>
      match strptime s fmt with
      | Some d => Ok d
      | None => Raise ValueError
      end
  end.

Definition parse_email (mime_message : Message) : result Email :=
  let subject := get mime_message "Subject" in
  let message_date := get mime_message "Date" in
  message_date_object <- call_strptime message_date date_format ;;
  let body :=
    fold_left (fun body part => body ++ [part_message part])
      (extract_text_plain_parts mime_message) [] in
  Ok (mk_Email (Some message_date_object) subject
        (PyStr.join blank_marker body) [] []).

End Parser.

(** ** A reference instance of [strptime]

    For the scenarios only: it accepts the fixed-width form
    [Www, DD Mmm YYYY HH:MM:SS +HHMM] of the one format the program uses,
    with the calendar checked, and rejects everything else.  The library
    takes more spellings (one-digit fields, names in any letter case, runs
    of spaces, other forms of the offset).  The theorems about
    [parse_email] hold for every [strptime]. *)
Module RefStrptime.

Definition digit (c : ascii) : option nat :=
  let n := nat_of_ascii c in
  if (48 <=? n) && (n <=? 57) then Some (n - 48) else None.

(** Reads exactly [k] decimal digits. *)
Fixpoint digits (k : nat) (acc : nat) (s : string) : option (nat * string) :=
  match k with
  | 0 => Some (acc, s)
  | S k' =>
      match s with
      | String c t =>
          match digit c with
          | Some d => digits k' (10 * acc + d) t
          | None => None
          end
      | EmptyString => None
      end
  end.

Fixpoint expect (lit : string) (s : string) : option string :=
  match lit with
  | EmptyString => Some s
  | String c lit' =>
      match s with
      | String c' t => if Ascii.eqb c c' then expect lit' t else None
      | EmptyString => None
      end
  end.

(** Reads one of [names]; the result is its position, counted from 1. *)
Fixpoint name_in (names : list string) (i : nat) (s : string)
  : option (nat * string) :=
  match names with
  | [] => None
  | n :: rest =>
      match expect n s with
      | Some t => Some (i, t)
      | None => name_in rest (S i) s
      end
  end.

Definition weekdays : list string :=
  ["Mon"; "Tue"; "Wed"; "Thu"; "Fri"; "Sat"; "Sun"].

Definition months : list string :=
  ["Jan"; "Feb"; "Mar"; "Apr"; "May"; "Jun";
   "Jul"; "Aug"; "Sep"; "Oct"; "Nov"; "Dec"].

Definition obind {A B : Type} (o : option A) (k : A -> option B) : option B :=
  match o with
  | Some a => k a
  | None => None
  end.

Definition sign (s : string) : option (Z * string) :=
  match s with
  | String "+" t => Some (1%Z, t)
  | String "-" t => Some ((-1)%Z, t)
  | _ => None
  end.

Definition leap_year (y : nat) : bool :=
  (y mod 4 =? 0) && (negb (y mod 100 =? 0) || (y mod 400 =? 0)).

Definition days_in_month (y mo : nat) : nat :=
  match mo with
  | 2 => if leap_year y then 29 else 28
  | 4 | 6 | 9 | 11 => 30
  | _ => 31
  end.

Definition parse_rfc (s : string) : option datetime :=
  obind (name_in weekdays 1 s) (fun '(_, s) =>
  obind (expect ", " s) (fun s =>
  obind (digits 2 0 s) (fun '(d, s) =>
  obind (expect " " s) (fun s =>
  obind (name_in months 1 s) (fun '(mo, s) =>
  obind (expect " " s) (fun s =>
  obind (digits 4 0 s) (fun '(y, s) =>
  obind (expect " " s) (fun s =>
  obind (digits 2 0 s) (fun '(h, s) =>
  obind (expect ":" s) (fun s =>
  obind (digits 2 0 s) (fun '(mi, s) =>
  obind (expect ":" s) (fun s =>
  obind (digits 2 0 s) (fun '(se, s) =>
  obind (expect " " s) (fun s =>
  obind (sign s) (fun '(sg, s) =>
  obind (digits 2 0 s) (fun '(oh, s) =>
  obind (digits 2 0 s) (fun '(om, s) =>
  match s with
  | EmptyString =>
      if (1 <=? y) && (1 <=? d) && (d <=? days_in_month y mo)
         && (h <=? 23) && (mi <=? 59) && (se <=? 59)
         && (oh <=? 23) && (om <=? 59)
      then Some (mk_datetime y mo d h mi se
                   (sg * Z.of_nat (3600 * oh + 60 * om))%Z)
      else None
  | _ => None
  end))))))))))))))))).

Definition strptime (s fmt : string) : option datetime :=
  if String.eqb fmt date_format then parse_rfc s else None.

End RefStrptime.

(** ** Specification-side definitions *)

(** A line is blank when trimming leaves nothing of it. *)
Definition blank (x : string) : Prop := PyStr.strip x = "".

(** The list without its leading blank lines. *)
Fixpoint drop_blanks (lst : list string) : list string :=
  match lst with
  | [] => []
  | x :: rest => if non_empty x then lst else drop_blanks rest
  end.

(** The list without its trailing blank lines. *)
Definition rdrop_blanks (lst : list string) : list string :=
  rev (drop_blanks (rev lst)).

(** Number of blank lines at the head of a list. *)
Fixpoint leading_blanks (lst : list string) : nat :=
  match lst with
  | [] => 0
  | x :: rest => if non_empty x then 0 else S (leading_blanks rest)
  end.

Definition trailing_blanks (lst : list string) : nat :=
  leading_blanks (rev lst).

(** The collapsing pass as a one-pass scan: [run] counts the blank lines
    emitted since the last non-blank one. *)
Fixpoint collapse_from (run : nat) (lst : list string) : list string :=
  match lst with
  | [] => []
  | x :: rest =>
      if non_empty x then x :: collapse_from 0 rest
      else if run <? 2 then x :: collapse_from (S run) rest
      else collapse_from run rest
  end.

(** Both trimming passes, by what they keep. *)
Definition trim (lst : list string) : list string :=
  if existsb non_empty lst then rev (drop_blanks (rev (drop_blanks lst)))
  else lst.

(** What lies between the first and the last non-blank line, both
    included; the blank lines inside it are the interior ones. *)
Definition interior (lst : list string) : list string :=
  rdrop_blanks (drop_blanks lst).

Definition no_interior_blank (lst : list string) : Prop :=
  Forall (fun x => ~ blank x) (interior lst).

(** The leaves of a MIME tree, depth first and left to right, each as its
    content type and payload. *)
Fixpoint leaves (m : Message) : list (string * string) :=
  match m with
  | Multipart _ _ subparts => flat_map leaves subparts
  | Leaf _ content_type payload => [(content_type, payload)]
  end.

Definition is_text_plain (leaf : string * string) : bool :=
  String.eqb (fst leaf) "text/plain".

(** The body as the specification words it: the normalised lines of each
    part joined with no separator, the parts joined with one newline. *)
Definition body_of_parts (parts : list string) : string :=
  PyStr.join blank_marker
    (map (fun part =>
            PyStr.join ""
              (process_list (map PyStr.strip (PyStr.splitlines part))))
       parts).

Definition good_date : string := "Mon, 01 Jan 2024 10:00:00 +0000".

Definition scenario_message : Message :=
  Leaf [("Subject", "Hi"); ("Date", good_date)] "text/plain"
    (PyStr.join blank_marker
       [""; ""; "Hello"; ""; ""; ""; "World"; ""]).

(** One container over the leaves A (text/plain), B (text/html) and
    C (text/plain). *)
Definition three_leaf_message : Message :=
  Multipart [("Date", good_date)] "multipart/mixed"
    [Leaf [] "text/plain" "A"; Leaf [] "text/html" "B";
     Leaf [] "text/plain" "C"].

(** Two plain-text parts, [A], newline, [B] and [C], nested at different
    depths, with a part of another type between them. *)
Definition two_part_message : Message :=
  Multipart [("Subject", "Hi"); ("Date", good_date)] "multipart/mixed"
    [Multipart [] "multipart/alternative"
       [Leaf [] "text/plain" ("A" ++ blank_marker ++ "B")%string;
        Leaf [] "text/html" "<p>A B</p>"];
     Leaf [] "text/plain" "C"].

Definition no_subject_message : Message :=
  Leaf [("Date", good_date)] "text/plain" "hi".

Definition bad_date_message : Message :=
  Leaf [("Subject", "Hi"); ("Date", "01/01/2024")] "text/plain" "hi".

Definition no_date_message : Message :=
  Leaf [("Subject", "Hi")] "text/plain" "hi".

(** ** The entry point

    [main] from its [try] statement on.  The Gmail client is outside the
    program: what it does is given by the outcome of each call. *)

(** How a call into the client ends: with a value, with the client's
    [HttpError], or with any other exception. *)
Inductive outcome (A : Type) : Type :=
| Returned (a : A)
| RaisedHttpError
| RaisedException.
Arguments Returned {A} a.
Arguments RaisedHttpError {A}.
Arguments RaisedException {A}.

(** The [except] clause that printed. *)
Inductive Handler : Type := HttpErrorHandler | ExceptionHandler.

(** What a run leaves behind: the list [_emails], the thread ids handed to
    [get_top_message] in call order, and the handler that printed, if
    any. *)
Record Run : Type := mk_Run {
  run_emails : list Email;
  run_fetched : list string;
  run_printed : option Handler
}.

(** [get_threads]: [response.get("threads", [])], the response given by
    its ["threads"] entry, [None] when it has none. *)
Definition get_threads {T : Type} (threads_entry : option (list T))
  : list T :=
  match threads_entry with
  | Some threads => threads
  | None => []
  end.

Section Main.

Variable strptime : string -> string -> option datetime.

(** [get_top_message(service, thread_id)] for the service of the run. *)
Variable get_top_message : string -> outcome Message.

(** The [for] loop.  A thread is given by its ["id"] entry; [_thread["id"]]
    raises [KeyError] when there is none.  The exceptions of [parse_email]
    are built-in ones, so the second handler takes them. *)
Fixpoint main_loop (threads : list (option string)) (_emails : list Email)
  (fetched : list string) : Run :=
  match threads with
  | [] => mk_Run _emails fetched None
  | None :: _ => mk_Run _emails fetched (Some ExceptionHandler)
  | Some thread_id :: rest =>
      match get_top_message thread_id with
      | RaisedHttpError =>
          mk_Run _emails (fetched ++ [thread_id]) (Some HttpErrorHandler)
      | RaisedException =>
          mk_Run _emails (fetched ++ [thread_id]) (Some ExceptionHandler)
      | Returned mime_msg =>
          match parse_email strptime mime_msg with
          | Raise _ =>
              mk_Run _emails (fetched ++ [thread_id]) (Some ExceptionHandler)
          | Ok _email =>
              main_loop rest (_emails ++ [_email]) (fetched ++ [thread_id])
          end
      end
  end.

(** [listing] is how [build] followed by the listing request ends. *)
Definition main (listing : outcome (option (list (option string)))) : Run :=
  match listing with
  | RaisedHttpError => mk_Run [] [] (Some HttpErrorHandler)
  | RaisedException => mk_Run [] [] (Some ExceptionHandler)
  | Returned threads_entry => main_loop (get_threads threads_entry) [] []
  end.

(** The thread [thread_id] is fetched and parsed into [em]. *)
Definition parsed (thread_id : string) (em : Email) : Prop :=
  exists m,
    get_top_message thread_id = Returned m
    /\ parse_email strptime m = Ok em.

End Main.

(** A service for the examples: three threads that are there, one whose
    request fails, and nothing else. *)
Definition sample_service (thread_id : string) : outcome Message :=
  if String.eqb thread_id "t1" then Returned two_part_message
  else if String.eqb thread_id "t2" then Returned scenario_message
  else if String.eqb thread_id "t3" then Returned bad_date_message
  else if String.eqb thread_id "t4" then RaisedHttpError
  else RaisedException.

(** ** Order-preserving selections *)

(** [subseq kept lst]: [kept] is [lst] with some elements left out. *)
Inductive subseq : list string -> list string -> Prop :=
| subseq_nil : subseq [] []
| subseq_skip (x : string) (kept lst : list string) :
    subseq kept lst -> subseq kept (x :: lst)
| subseq_keep (x : string) (kept lst : list string) :
    subseq kept lst -> subseq (x :: kept) (x :: lst).

(** ** Scenarios of the specification, by evaluation *)

Example process_list_spec_scenario :
  process_list [""; ""; "Hello"; ""; ""; ""; "World"; ""]
  = ["Hello"; blank_marker; blank_marker; "World"].
Proof. reflexivity. Qed.

Example splitlines_samples :
  PyStr.splitlines "" = []
  /\ PyStr.splitlines "ab" = ["ab"]
  /\ PyStr.splitlines (String "a" (String PyStr.LF (String PyStr.LF "b")))
     = ["a"; ""; "b"]
  /\ PyStr.splitlines (String "a" (String PyStr.CR (String PyStr.LF "")))
     = ["a"].
Proof. repeat split; reflexivity. Qed.

Example parse_email_spec_scenario :
  parse_email RefStrptime.strptime scenario_message
  = Ok (mk_Email (Some (mk_datetime 2024 1 1 10 0 0 0)) (Some "Hi")
          (PyStr.join "" ["Hello"; blank_marker; blank_marker; "World"])
          [] []).
Proof. vm_compute. reflexivity. Qed.

(** ** Blank lines and the canonical marker *)

Lemma non_empty_false_iff (x : string) : non_empty x = false <-> blank x.
Proof.
  unfold non_empty, blank. destruct (PyStr.strip x); simpl; split;
    intros H; try reflexivity; discriminate H.
Qed.

Lemma non_empty_true_iff (x : string) : non_empty x = true <-> ~ blank x.
Proof.
  rewrite <- non_empty_false_iff. destruct (non_empty x); split; intros H;
    try reflexivity; try discriminate; try (intros H'; discriminate H').
  exfalso. apply H. reflexivity.
Qed.

Lemma Forall_blank_existsb (lst : list string) :
  Forall blank lst <-> existsb non_empty lst = false.
Proof.
  induction lst as [|x rest IH]; simpl.
  - split; [reflexivity | constructor].
  - rewrite orb_false_iff, <- IH, non_empty_false_iff. split.
    + intros H. inversion H; subst. split; assumption.
    + intros [H1 H2]. constructor; assumption.
Qed.

Lemma canonicalize_non_empty (x : string) :
  non_empty x = true -> canonicalize x = x.
Proof. destruct x; [discriminate | reflexivity]. Qed.

Lemma non_empty_canonicalize (x : string) :
  non_empty (canonicalize x) = non_empty x.
Proof. destruct x; reflexivity. Qed.

Lemma canonicalize_idem (x : string) :
  canonicalize (canonicalize x) = canonicalize x.
Proof. destruct x; reflexivity. Qed.

(** ** The trimming passes *)

Lemma next_index_spec (lst : list string) (k : nat) :
  match next_index non_empty lst k with
  | Some i =>
      existsb non_empty lst = true /\ k <= i
      /\ skipn (i - k) lst = drop_blanks lst
  | None => existsb non_empty lst = false
  end.
Proof.
  revert k. induction lst as [|x rest IH]; intros k; simpl.
  - reflexivity.
  - destruct (non_empty x) eqn:Hx; simpl.
    + rewrite Nat.sub_diag. auto.
    + specialize (IH (S k)). destruct (next_index non_empty rest (S k)) as [i|].
      * destruct IH as (H1 & H2 & H3). repeat split; [assumption | lia |].
        replace (i - k) with (S (i - S k)) by lia. exact H3.
      * exact IH.
Qed.

Lemma existsb_drop_blanks (lst : list string) :
  existsb non_empty (drop_blanks lst) = existsb non_empty lst.
Proof.
  induction lst as [|x rest IH]; simpl; [reflexivity|].
  destruct (non_empty x) eqn:Hx; simpl; [rewrite Hx; reflexivity | exact IH].
Qed.

Lemma existsb_non_empty_rev (lst : list string) :
  existsb non_empty (rev lst) = existsb non_empty lst.
Proof.
  induction lst as [|x rest IH]; simpl; [reflexivity|].
  rewrite existsb_app, IH. simpl. rewrite orb_false_r. apply orb_comm.
Qed.

Lemma trim_leading_spec (lst : list string) :
  trim_leading lst
  = if existsb non_empty lst then drop_blanks lst else lst.
Proof.
  unfold trim_leading. pose proof (next_index_spec lst 0) as H.
  destruct (next_index non_empty lst 0) as [i|].
  - destruct H as (H1 & _ & H3). rewrite H1, <- H3, Nat.sub_0_r. reflexivity.
  - rewrite H. reflexivity.
Qed.

Lemma trim_trailing_spec (lst : list string) :
  trim_trailing lst
  = if existsb non_empty lst then rev (drop_blanks (rev lst)) else lst.
Proof.
  unfold trim_trailing. pose proof (next_index_spec (rev lst) 0) as H.
  rewrite existsb_non_empty_rev in H.
  destruct (next_index non_empty (rev lst) 0) as [i|].
  - destruct H as (H1 & _ & H3). rewrite H1, <- H3, Nat.sub_0_r.
    rewrite skipn_rev, rev_involutive. reflexivity.
  - rewrite H. reflexivity.
Qed.

Lemma trim_passes (lst : list string) :
  trim_trailing (trim_leading lst) = trim lst.
Proof.
  rewrite trim_leading_spec, trim_trailing_spec. unfold trim.
  destruct (existsb non_empty lst) eqn:H.
  - rewrite existsb_drop_blanks, H. reflexivity.
  - rewrite H. reflexivity.
Qed.

(** ** The collapsing loop as a scan *)

Lemma trailing_blanks_snoc (acc : list string) (x : string) :
  trailing_blanks (acc ++ [x])
  = if non_empty x then 0 else S (trailing_blanks acc).
Proof. unfold trailing_blanks. rewrite rev_unit. reflexivity. Qed.

(** The two guarded reads of the accumulator's tail decide exactly whether
    fewer than two blank lines end it. *)
Lemma collapse_step_spec (acc : list string) (x : string) :
  collapse_step acc x
  = if non_empty x || (trailing_blanks acc <? 2) then acc ++ [x] else acc.
Proof.
  unfold collapse_step, trailing_blanks.
  destruct (non_empty x) eqn:Hx; simpl; [reflexivity|].
  rewrite <- (rev_involutive acc). generalize (rev acc). intros l.
  rewrite rev_involutive. destruct l as [|y [|z r]]; simpl.
  - reflexivity.
  - destruct (non_empty y); reflexivity.
  - rewrite !length_app, !last_last. simpl.
    replace (List.length (rev r) + 1 + 1 =? 0) with false
      by (symmetry; apply Nat.eqb_neq; lia).
    replace (List.length (rev r) + 1 + 1 <? 2) with false
      by (symmetry; apply Nat.ltb_ge; lia).
    replace (List.length (rev r) + 1 + 1 - 2) with (List.length (rev r))
      by lia.
    rewrite <- !app_assoc. simpl. rewrite nth_middle.
    destruct (non_empty y), (non_empty z); reflexivity.
Qed.

Lemma fold_collapse_step (lst acc : list string) :
  fold_left collapse_step lst acc
  = acc ++ collapse_from (trailing_blanks acc) lst.
Proof.
  revert acc. induction lst as [|x rest IH]; intros acc; simpl.
  - rewrite app_nil_r. reflexivity.
  - rewrite collapse_step_spec.
    destruct (non_empty x) eqn:Hx; simpl.
    + rewrite IH, trailing_blanks_snoc, Hx, <- app_assoc. reflexivity.
    + destruct (trailing_blanks acc <? 2) eqn:Hc.
      * rewrite IH, trailing_blanks_snoc, Hx, <- app_assoc. reflexivity.
      * apply IH.
Qed.

(** The normaliser in closed form. *)
Lemma process_list_eq (lst : list string) :
  process_list lst = map canonicalize (collapse_from 0 (trim lst)).
Proof.
  unfold process_list. rewrite trim_passes, fold_collapse_step. reflexivity.
Qed.

(** ** Lists of blank lines, lists without blank lines *)

Lemma collapse_from_all_blank (lst : list string) (run : nat) :
  Forall blank lst -> collapse_from run lst = firstn (2 - run) lst.
Proof.
  intros H. revert run.
  induction H as [|x rest Hx _ IH]; intros run; cbn [collapse_from].
  - rewrite firstn_nil. reflexivity.
  - apply non_empty_false_iff in Hx. rewrite Hx.
    destruct (run <? 2) eqn:Hr.
    + apply Nat.ltb_lt in Hr. rewrite IH.
      replace (2 - run) with (S (2 - S run)) by lia.
      rewrite firstn_cons. reflexivity.
    + apply Nat.ltb_ge in Hr. rewrite IH.
      replace (2 - run) with 0 by lia.
      replace (2 - S run) with 0 by lia. reflexivity.
Qed.

Lemma trim_all_blank (lst : list string) : Forall blank lst -> trim lst = lst.
Proof.
  intros H. apply Forall_blank_existsb in H. unfold trim. rewrite H.
  reflexivity.
Qed.

Lemma process_list_all_blank (lst : list string) :
  Forall blank lst -> process_list lst = map canonicalize (firstn 2 lst).
Proof.
  intros H. rewrite process_list_eq, trim_all_blank by assumption.
  rewrite collapse_from_all_blank by assumption. reflexivity.
Qed.

Lemma collapse_from_no_blank (lst : list string) (run : nat) :
  Forall (fun x => ~ blank x) lst -> collapse_from run lst = lst.
Proof.
  intros H. revert run. induction H as [|x rest Hx _ IH]; intros run; simpl.
  - reflexivity.
  - apply non_empty_true_iff in Hx. rewrite Hx, IH. reflexivity.
Qed.

Lemma map_canonicalize_no_blank (lst : list string) :
  Forall (fun x => ~ blank x) lst -> map canonicalize lst = lst.
Proof.
  induction 1 as [|x rest Hx _ IH]; simpl; [reflexivity|].
  apply non_empty_true_iff in Hx.
  rewrite canonicalize_non_empty, IH by assumption. reflexivity.
Qed.

(** ** Non-blank lines pass through every stage *)

Lemma filter_drop_blanks (lst : list string) :
  filter non_empty (drop_blanks lst) = filter non_empty lst.
Proof.
  induction lst as [|x rest IH]; simpl; [reflexivity|].
  destruct (non_empty x) eqn:Hx; simpl; [rewrite Hx; reflexivity | exact IH].
Qed.

Lemma filter_trim (lst : list string) :
  filter non_empty (trim lst) = filter non_empty lst.
Proof.
  unfold trim. destruct (existsb non_empty lst); [|reflexivity].
  rewrite filter_rev, filter_drop_blanks, filter_rev, rev_involutive.
  apply filter_drop_blanks.
Qed.

Lemma filter_collapse_from (lst : list string) (run : nat) :
  filter non_empty (collapse_from run lst) = filter non_empty lst.
Proof.
  revert run. induction lst as [|x rest IH]; intros run; simpl.
  - reflexivity.
  - destruct (non_empty x) eqn:Hx; simpl.
    + rewrite Hx, IH. reflexivity.
    + destruct (run <? 2); simpl; [rewrite Hx|]; apply IH.
Qed.

Lemma filter_map_canonicalize (lst : list string) :
  filter non_empty (map canonicalize lst) = filter non_empty lst.
Proof.
  induction lst as [|x rest IH]; simpl; [reflexivity|].
  rewrite non_empty_canonicalize, IH.
  destruct (non_empty x) eqn:Hx; [|reflexivity].
  rewrite canonicalize_non_empty by assumption. reflexivity.
Qed.

(** ** Trimming around a non-blank line *)

Lemma drop_blanks_app_blank (lead lst : list string) :
  Forall blank lead -> drop_blanks (lead ++ lst) = drop_blanks lst.
Proof.
  induction 1 as [|x rest Hx _ IH]; simpl; [reflexivity|].
  apply non_empty_false_iff in Hx. rewrite Hx. exact IH.
Qed.

Lemma drop_blanks_split (l1 l2 : list string) (a : string) :
  non_empty a = true ->
  exists kept,
    drop_blanks (l1 ++ [a]) = kept ++ [a]
    /\ drop_blanks (l1 ++ a :: l2) = kept ++ a :: l2.
Proof.
  intros Ha. induction l1 as [|x rest IH]; simpl.
  - rewrite Ha. exists []. split; reflexivity.
  - destruct (non_empty x).
    + exists (x :: rest). split; reflexivity.
    + exact IH.
Qed.

Lemma rdrop_blanks_split (l1 l2 : list string) (a : string) :
  non_empty a = true ->
  exists kept,
    rdrop_blanks (a :: l2) = a :: kept
    /\ rdrop_blanks (l1 ++ a :: l2) = l1 ++ a :: kept.
Proof.
  intros Ha. unfold rdrop_blanks.
  destruct (drop_blanks_split (rev l2) (rev l1) a Ha) as (k & H1 & H2).
  exists (rev k). split.
  - simpl. rewrite H1, rev_unit. reflexivity.
  - rewrite rev_app_distr. simpl. rewrite <- app_assoc. simpl.
    rewrite H2, rev_app_distr. simpl. rewrite rev_involutive, <- app_assoc.
    reflexivity.
Qed.

Lemma existsb_non_empty_mid (l1 l2 : list string) (a : string) :
  non_empty a = true -> existsb non_empty (l1 ++ a :: l2) = true.
Proof.
  intros Ha. rewrite existsb_app. simpl. rewrite Ha.
  rewrite orb_true_l. apply orb_true_r.
Qed.

(** Trimming a list cut at two non-blank lines [a] and [b] (which may be
    the same place when [mid] is empty and the cut is made once, see
    [trim_around_one]). *)
Lemma trim_around_two (pre mid post : list string) (a b : string) :
  non_empty a = true -> non_empty b = true ->
  exists front back,
    trim (pre ++ [a]) = front ++ [a]
    /\ trim (b :: post) = b :: back
    /\ trim (pre ++ a :: mid ++ b :: post) = front ++ a :: mid ++ b :: back.
Proof.
  intros Ha Hb. unfold trim.
  rewrite (existsb_non_empty_mid pre [] a Ha).
  rewrite (existsb_non_empty_mid [] post b Hb : existsb _ (b :: post) = _).
  rewrite (existsb_non_empty_mid pre (mid ++ b :: post) a Ha).
  destruct (drop_blanks_split pre (mid ++ b :: post) a Ha) as (f & H1 & H2).
  destruct (rdrop_blanks_split (f ++ a :: mid) post b Hb) as (k & H3 & H4).
  exists f, k. rewrite H1, H2. fold (rdrop_blanks (f ++ [a])).
  fold (rdrop_blanks (f ++ a :: mid ++ b :: post)).
  simpl drop_blanks. rewrite Hb. fold (rdrop_blanks (b :: post)).
  repeat split.
  - destruct (rdrop_blanks_split f [] a Ha) as (k' & H5 & H6).
    rewrite H6. unfold rdrop_blanks in H5. simpl in H5. rewrite Ha in H5.
    simpl in H5. injection H5 as H5. subst k'. reflexivity.
  - exact H3.
  - rewrite <- app_assoc in H4. simpl in H4. rewrite H4.
    rewrite <- app_assoc. reflexivity.
Qed.

Lemma trim_framed (lead mid trail : list string) :
  Forall blank lead -> Forall blank trail ->
  ~ blank (hd "" mid) -> ~ blank (last mid "") ->
  trim (lead ++ mid ++ trail) = mid.
Proof.
  intros Hl Ht Hh Hz.
  apply non_empty_true_iff in Hh. apply non_empty_true_iff in Hz.
  destruct mid as [|a m]; [discriminate Hh|]. simpl in Hh.
  destruct (exists_last (l := a :: m)) as (m' & z & Hm); [discriminate|].
  rewrite Hm in Hz. rewrite last_last in Hz.
  unfold trim.
  replace (existsb non_empty (lead ++ (a :: m) ++ trail)) with true
    by (symmetry; apply (existsb_non_empty_mid lead (m ++ trail) a Hh)).
  rewrite drop_blanks_app_blank by assumption.
  simpl drop_blanks. rewrite Hh. change (a :: m ++ trail) with ((a :: m) ++ trail).
  rewrite Hm, rev_app_distr, rev_unit.
  rewrite drop_blanks_app_blank by (apply Forall_rev; assumption).
  simpl. rewrite Hz. simpl. rewrite rev_involutive. reflexivity.
Qed.

(** Every list with a non-blank line is framed in exactly this way. *)
Lemma framed_decomposition (lst : list string) :
  existsb non_empty lst = true ->
  exists lead mid trail,
    lst = lead ++ mid ++ trail
    /\ Forall blank lead /\ Forall blank trail
    /\ ~ blank (hd "" mid) /\ ~ blank (last mid "").
Proof.
  assert (first_cut : forall l, existsb non_empty l = true ->
            exists lead a rest,
              l = lead ++ a :: rest /\ Forall blank lead
              /\ non_empty a = true).
  { induction l as [|x r IH]; simpl; [discriminate|].
    destruct (non_empty x) eqn:Hx; intros H.
    - exists [], x, r. repeat split; [constructor | assumption].
    - destruct (IH H) as (lead & a & rest & -> & Hl & Ha).
      exists (x :: lead), a, rest. repeat split; [|assumption].
      constructor; [apply non_empty_false_iff|]; assumption. }
  intros H. destruct (first_cut lst H) as (lead & a & rest & -> & Hl & Ha).
  assert (H' : existsb non_empty (rev (a :: rest)) = true).
  { rewrite existsb_non_empty_rev. simpl. rewrite Ha. reflexivity. }
  destruct (first_cut _ H') as (t & z & r & Hrev & Ht & Hz).
  apply (f_equal (@rev string)) in Hrev.
  rewrite rev_involutive, rev_app_distr in Hrev. simpl in Hrev.
  rewrite <- app_assoc in Hrev. simpl in Hrev.
  exists lead, (rev r ++ [z]), (rev t).
  rewrite <- app_assoc. simpl. rewrite <- Hrev.
  repeat split; [assumption | apply Forall_rev; assumption | |].
  - apply non_empty_true_iff.
    destruct (rev r) as [|y r'] eqn:Hr; simpl in *.
    + assumption.
    + injection Hrev as <- _. assumption.
  - rewrite last_last. apply non_empty_true_iff. assumption.
Qed.

(** ** Collapsing around a non-blank line *)

Lemma collapse_from_split (l1 l2 : list string) (a : string) (run : nat) :
  non_empty a = true ->
  collapse_from run (l1 ++ a :: l2)
  = collapse_from run l1 ++ a :: collapse_from 0 l2.
Proof.
  intros Ha. revert run. induction l1 as [|x rest IH]; intros run; simpl.
  - rewrite Ha. reflexivity.
  - destruct (non_empty x); [rewrite IH; reflexivity|].
    destruct (run <? 2); rewrite IH; reflexivity.
Qed.

Lemma collapse_from_map_canonicalize (lst : list string) (run : nat) :
  collapse_from run (map canonicalize lst)
  = map canonicalize (collapse_from run lst).
Proof.
  revert run. induction lst as [|x rest IH]; intros run; simpl.
  - reflexivity.
  - rewrite non_empty_canonicalize. destruct (non_empty x); simpl.
    + rewrite IH. reflexivity.
    + destruct (run <? 2); simpl; rewrite IH; reflexivity.
Qed.

Lemma collapse_from_idem (lst : list string) (run : nat) :
  collapse_from run (collapse_from run lst) = collapse_from run lst.
Proof.
  revert run. induction lst as [|x rest IH]; intros run; simpl.
  - reflexivity.
  - destruct (non_empty x) eqn:Hx; simpl.
    + rewrite Hx, IH. reflexivity.
    + destruct (run <? 2) eqn:Hr; simpl; [rewrite Hx, Hr|]; rewrite IH;
        reflexivity.
Qed.

Lemma hd_collapse_from (lst : list string) (run : nat) :
  ~ blank (hd "" lst) -> hd "" (collapse_from run lst) = hd "" lst.
Proof.
  intros H. apply non_empty_true_iff in H.
  destruct lst as [|a m]; [reflexivity|]. simpl in *. rewrite H. reflexivity.
Qed.

Lemma last_collapse_from (lst : list string) (run : nat) :
  ~ blank (last lst "") -> last (collapse_from run lst) "" = last lst "".
Proof.
  intros H. apply non_empty_true_iff in H.
  destruct lst as [|a m]; [reflexivity|].
  destruct (exists_last (l := a :: m)) as (m' & z & Hm); [discriminate|].
  rewrite Hm in *. rewrite last_last in H.
  rewrite (collapse_from_split m' [] z run H). simpl.
  rewrite !last_last. reflexivity.
Qed.

Lemma hd_map_canonicalize (lst : list string) :
  ~ blank (hd "" lst) -> hd "" (map canonicalize lst) = hd "" lst.
Proof.
  intros H. apply non_empty_true_iff in H.
  destruct lst as [|a m]; [reflexivity|]. simpl in *.
  apply canonicalize_non_empty. assumption.
Qed.

Lemma last_map_canonicalize (lst : list string) :
  ~ blank (last lst "") -> last (map canonicalize lst) "" = last lst "".
Proof.
  intros H. apply non_empty_true_iff in H.
  destruct lst as [|a m]; [reflexivity|].
  destruct (exists_last (l := a :: m)) as (m' & z & Hm); [discriminate|].
  rewrite Hm in *. rewrite last_last in H.
  rewrite map_app. simpl. rewrite !last_last.
  apply canonicalize_non_empty. assumption.
Qed.

Lemma process_list_framed (lead mid trail : list string) :
  Forall blank lead -> Forall blank trail ->
  ~ blank (hd "" mid) -> ~ blank (last mid "") ->
  process_list (lead ++ mid ++ trail)
  = map canonicalize (collapse_from 0 mid).
Proof.
  intros Hl Ht Hh Hz. rewrite process_list_eq, trim_framed by assumption.
  reflexivity.
Qed.

Lemma process_list_framed_ends (mid : list string) :
  ~ blank (hd "" mid) -> ~ blank (last mid "") ->
  hd "" (map canonicalize (collapse_from 0 mid)) = hd "" mid
  /\ last (map canonicalize (collapse_from 0 mid)) "" = last mid "".
Proof.
  intros Hh Hz. split.
  - rewrite hd_map_canonicalize; rewrite hd_collapse_from; auto.
  - rewrite last_map_canonicalize; rewrite last_collapse_from; auto.
Qed.

Lemma Forall_blank_firstn (lst : list string) (n : nat) :
  Forall blank lst -> Forall blank (firstn n lst).
Proof.
  intros H. rewrite <- (firstn_skipn n lst) in H.
  apply Forall_app in H. apply H.
Qed.

Lemma process_list_idem (lst : list string) :
  process_list (process_list lst) = process_list lst.
Proof.
  destruct (existsb non_empty lst) eqn:H.
  - destruct (framed_decomposition lst H)
      as (lead & mid & trail & -> & Hl & Ht & Hh & Hz).
    rewrite process_list_framed by assumption.
    destruct (process_list_framed_ends mid Hh Hz) as [E1 E2].
    set (out := map canonicalize (collapse_from 0 mid)) in *.
    assert (E : process_list out = map canonicalize (collapse_from 0 out)).
    { pose proof (process_list_framed [] out []) as P.
      rewrite app_nil_r in P. apply P;
        [constructor | constructor | rewrite E1 | rewrite E2]; assumption. }
    rewrite E. unfold out.
    rewrite collapse_from_map_canonicalize, collapse_from_idem, map_map.
    apply map_ext. apply canonicalize_idem.
  - apply Forall_blank_existsb in H.
    rewrite (process_list_all_blank lst H).
    rewrite process_list_all_blank.
    + rewrite firstn_map, firstn_firstn, map_map. simpl Nat.min.
      apply map_ext. apply canonicalize_idem.
    + apply Forall_map. apply Forall_blank_firstn with (n := 2) in H.
      revert H. apply Forall_impl. intros x Hx.
      apply non_empty_false_iff. rewrite non_empty_canonicalize.
      apply non_empty_false_iff. assumption.
Qed.

(** ** The laws of the line normaliser *)

(** C1, as the code has it: on a list of blank lines only, [process_list]
    keeps the first two of them, every empty string among them replaced by
    the newline marker; the result is the empty sequence only for the empty
    list. *)
Theorem process_list_blank_only (lst : list string) :
  Forall blank lst ->
  process_list lst = map canonicalize (firstn 2 lst)
  /\ List.length (process_list lst) = Nat.min 2 (List.length lst)
  /\ (process_list lst = [] <-> lst = []).
Proof.
  intros H. rewrite (process_list_all_blank lst H). repeat split.
  - rewrite length_map, length_firstn. reflexivity.
  - destruct lst as [|x [|y r]]; simpl; intros E; try reflexivity;
      discriminate E.
  - intros ->. reflexivity.
Qed.

Lemma process_list_blank_only_witness :
  Forall blank [""; " "; ""]
  /\ process_list [""; " "; ""] = [blank_marker; " "].
Proof.
  assert (H : Forall blank [""; " "; ""]) by (repeat constructor).
  split; [exact H|].
  rewrite (proj1 (process_list_blank_only [""; " "; ""] H)). reflexivity.
Defined.

(** C1 fails as stated: a list holding one empty line is normalised to one
    newline marker, not to the empty sequence. *)
Lemma process_list_blank_only_counterexample :
  Forall blank [""]
  /\ process_list [""] = [blank_marker]
  /\ process_list [""] <> [].
Proof.
  split; [repeat constructor|]. split; [reflexivity|].
  intros H. discriminate H.
Qed.

Lemma process_list_run (pre run post : list string) (a b : string) :
  non_empty a = true -> non_empty b = true -> Forall blank run ->
  exists front back,
    process_list (pre ++ [a]) = front ++ [a]
    /\ process_list (b :: post) = b :: back
    /\ process_list (pre ++ a :: run ++ b :: post)
       = front ++ a :: map canonicalize (firstn 2 run) ++ b :: back.
Proof.
  intros Ha Hb Hr.
  destruct (trim_around_two pre run post a b Ha Hb) as (f & k & E1 & E2 & E3).
  exists (map canonicalize (collapse_from 0 f)),
         (map canonicalize (collapse_from 0 k)).
  rewrite !process_list_eq, E1, E2, E3.
  rewrite !(collapse_from_split f _ a 0 Ha).
  rewrite (collapse_from_split run k b 0 Hb).
  rewrite (collapse_from_all_blank run 0 Hr).
  simpl. rewrite Hb. rewrite !map_app. simpl. rewrite map_app. simpl.
  rewrite !canonicalize_non_empty by assumption.
  repeat split; reflexivity.
Qed.

(** C2: on trimmed lines, which are what the normaliser is given, a run
    of two or more blank lines between two non-blank lines [a] and [b]
    leaves exactly two newline markers between them, however long the run
    is.  Only the lines of the run need to be trimmed for this. *)
Theorem collapse_law (pre run post : list string) (a b : string) :
  Forall (fun x => PyStr.strip x = x) run ->
  ~ blank a -> ~ blank b -> Forall blank run -> 2 <= List.length run ->
  exists front back,
    process_list (pre ++ [a]) = front ++ [a]
    /\ process_list (b :: post) = b :: back
    /\ process_list (pre ++ a :: run ++ b :: post)
       = front ++ a :: blank_marker :: blank_marker :: b :: back.
Proof.
  intros Hs Ha Hb Hr Hk.
  apply non_empty_true_iff in Ha. apply non_empty_true_iff in Hb.
  destruct (process_list_run pre run post a b Ha Hb Hr)
    as (f & k & E1 & E2 & E3).
  exists f, k. split; [exact E1|]. split; [exact E2|].
  rewrite E3. destruct run as [|r1 [|r2 run']]; simpl in Hk; try lia.
  inversion Hr as [|? ? B1 Hr']. inversion Hr' as [|? ? B2 _].
  inversion Hs as [|? ? S1 Hs']. inversion Hs' as [|? ? S2 _]. subst.
  unfold blank in B1, B2. rewrite B1 in S1. rewrite B2 in S2.
  subst r1 r2. reflexivity.
Qed.

Lemma collapse_law_witness :
  exists front back,
    process_list [""; "x"; "a"; ""; ""; ""; "b"; ""; "y"; ""]
    = front ++ "a" :: blank_marker :: blank_marker :: "b" :: back.
Proof.
  assert (Hs : Forall (fun x => PyStr.strip x = x) [""; ""; ""])
    by (repeat constructor).
  assert (Ha : ~ blank "a") by (intros H; discriminate H).
  assert (Hb : ~ blank "b") by (intros H; discriminate H).
  assert (Hr : Forall blank [""; ""; ""]) by (repeat constructor).
  assert (Hk : 2 <= List.length [""; ""; ""]) by (simpl; lia).
  destruct (collapse_law [""; "x"] [""; ""; ""] [""; "y"; ""] "a" "b"
              Hs Ha Hb Hr Hk)
    as (f & k & _ & _ & E).
  exists f, k. exact E.
Defined.

(** C3: the blank lines before the first and after the last non-blank line
    are all removed, however many they are: the output is that of the
    framed part alone, and it begins and ends with the non-blank lines that
    frame it. *)
Theorem boundary_law (lead mid trail : list string) :
  Forall blank lead -> Forall blank trail ->
  ~ blank (hd "" mid) -> ~ blank (last mid "") ->
  process_list (lead ++ mid ++ trail) = process_list mid
  /\ hd "" (process_list (lead ++ mid ++ trail)) = hd "" mid
  /\ last (process_list (lead ++ mid ++ trail)) "" = last mid "".
Proof.
  intros Hl Ht Hh Hz.
  rewrite (process_list_framed lead mid trail Hl Ht Hh Hz).
  pose proof (process_list_framed [] mid []) as P.
  rewrite app_nil_r in P. simpl in P.
  rewrite P by (try constructor; assumption).
  split; [reflexivity|]. apply process_list_framed_ends; assumption.
Qed.

Lemma boundary_law_witness :
  process_list ([""; " "; ""] ++ ["a"; ""; "b"] ++ [""; ""; ""; ""])
  = process_list ["a"; ""; "b"].
Proof.
  apply (boundary_law [""; " "; ""] ["a"; ""; "b"] [""; ""; ""; ""]).
  - repeat constructor.
  - repeat constructor.
  - intros H. discriminate H.
  - intros H. discriminate H.
Defined.

(** C8: normalising a normalised list changes nothing. *)
Theorem process_list_idempotent (lst : list string) :
  process_list (process_list lst) = process_list lst.
Proof. apply process_list_idem. Qed.

(** C9, as the code has it: a list with no blank line at all, interior or
    boundary, is returned unchanged. *)
Theorem process_list_no_blank (lst : list string) :
  Forall (fun x => ~ blank x) lst -> process_list lst = lst.
Proof.
  intros H. rewrite process_list_eq.
  assert (T : trim lst = lst).
  { destruct lst as [|a m]; [reflexivity|].
    pose proof (trim_framed [] (a :: m) []) as P.
    rewrite app_nil_r in P. apply P; try constructor.
    - inversion H; assumption.
    - apply (proj1 (Forall_forall _ _) H).
      destruct (exists_last (l := a :: m)) as (m' & z & ->); [discriminate|].
      rewrite last_last. apply in_or_app. right. left. reflexivity. }
  rewrite T, collapse_from_no_blank by assumption.
  apply map_canonicalize_no_blank. assumption.
Qed.

Lemma process_list_no_blank_witness :
  process_list ["Dear all,"; "see below."; "Regards"]
  = ["Dear all,"; "see below."; "Regards"].
Proof.
  apply process_list_no_blank.
  repeat constructor; intros H; discriminate H.
Defined.

(** C9 fails as stated: a blank line before the first non-blank one is no
    interior blank, and it is removed. *)
Lemma process_list_no_interior_counterexample :
  [""; "a"] <> []
  /\ no_interior_blank [""; "a"]
  /\ process_list [""; "a"] = ["a"]
  /\ process_list [""; "a"] <> [""; "a"].
Proof.
  split; [discriminate|]. split.
  - unfold no_interior_blank. simpl. repeat constructor.
    intros H. discriminate H.
  - split; [reflexivity|]. intros H. discriminate H.
Qed.

(** C10: the non-blank lines of the output are those of the input, the
    same strings in the same order. *)
Theorem non_blank_lines_preserved (lst : list string) :
  filter non_empty (process_list lst) = filter non_empty lst.
Proof.
  rewrite process_list_eq, filter_map_canonicalize, filter_collapse_from.
  apply filter_trim.
Qed.

(** ** The walker *)

(** Induction over MIME trees, with the hypothesis for every child of a
    container. *)
Lemma Message_tree_ind (P : Message -> Prop) :
  (forall h ct subparts, Forall P subparts -> P (Multipart h ct subparts)) ->
  (forall h ct payload, P (Leaf h ct payload)) ->
  forall m, P m.
Proof.
  intros Hmulti Hleaf. fix IH 1. intros [h ct subparts | h ct payload].
  - apply Hmulti. induction subparts as [|s rest IHrest].
    + constructor.
    + constructor; [apply IH | exact IHrest].
  - apply Hleaf.
Qed.

Lemma extract_text_plain_parts_leaves (m : Message) :
  extract_text_plain_parts m = map snd (filter is_text_plain (leaves m)).
Proof.
  induction m as [h ct subparts IH | h ct payload] using Message_tree_ind.
  - simpl. induction IH as [|s rest Hs _ IHrest]; simpl.
    + reflexivity.
    + rewrite filter_app, map_app, Hs, IHrest. reflexivity.
  - simpl. unfold is_text_plain. simpl.
    destruct (String.eqb ct "text/plain"); reflexivity.
Qed.

(** C5: the walker yields the payloads of the text/plain leaves, one for
    each, in depth-first left-to-right order, nothing for the other leaves,
    and nothing at all when no leaf is text/plain. *)
Theorem walker_yields_plain_leaves (m : Message) :
  extract_text_plain_parts m = map snd (filter is_text_plain (leaves m))
  /\ List.length (extract_text_plain_parts m)
     = List.length (filter is_text_plain (leaves m))
  /\ (forallb (fun leaf => negb (is_text_plain leaf)) (leaves m) = true
      -> extract_text_plain_parts m = []).
Proof.
  rewrite extract_text_plain_parts_leaves. repeat split.
  - apply length_map.
  - intros H. induction (leaves m) as [|leaf rest IH]; simpl in *.
    + reflexivity.
    + apply andb_true_iff in H. destruct H as [H1 H2].
      apply negb_true_iff in H1. rewrite H1. apply IH. exact H2.
Qed.

Example walker_three_leaves :
  leaves three_leaf_message
  = [("text/plain", "A"); ("text/html", "B"); ("text/plain", "C")]
  /\ extract_text_plain_parts three_leaf_message = ["A"; "C"].
Proof. split; reflexivity. Qed.

(** ** The orchestrator *)

Lemma fold_left_append {A B : Type} (f : A -> B) (l : list A)
  (acc : list B) :
  fold_left (fun body part => body ++ [f part]) l acc = acc ++ map f l.
Proof.
  revert acc. induction l as [|x rest IH]; intros acc; simpl.
  - rewrite app_nil_r. reflexivity.
  - rewrite IH, <- app_assoc. reflexivity.
Qed.

Section ParserLaws.

Variable strptime : string -> string -> option datetime.

Lemma parse_email_ok (m : Message) (s : string) (d : datetime) :
  get m "Date" = Some s -> strptime s date_format = Some d ->
  parse_email strptime m
  = Ok (mk_Email (Some d) (get m "Subject")
          (body_of_parts (extract_text_plain_parts m)) [] []).
Proof.
  intros Hs Hd. unfold parse_email, call_strptime. rewrite Hs, Hd. simpl.
  rewrite fold_left_append. reflexivity.
Qed.

(** An [Email] that [parse_email] returns always carries a date. *)
Lemma parse_email_date (m : Message) (em : Email) :
  parse_email strptime m = Ok em -> date em <> None.
Proof.
  unfold parse_email, call_strptime.
  destruct (get m "Date") as [s|]; [|discriminate].
  destruct (strptime s date_format); [|discriminate].
  simpl. intros H. injection H as <-. discriminate.
Qed.

(** C6: with the Date header absent, or present with a value that
    [strptime] rejects for the fixed format, [parse_email] raises and
    returns no [Email]. *)
Theorem parse_email_bad_date (m : Message) :
  get m "Date" = None
  \/ (exists s, get m "Date" = Some s /\ strptime s date_format = None) ->
  (exists err, parse_email strptime m = Raise err)
  /\ (forall em, parse_email strptime m <> Ok em).
Proof.
  unfold parse_email, call_strptime.
  intros [H | (s & H & Hs)]; rewrite H; [|rewrite Hs]; simpl.
  - split; [exists TypeError; reflexivity | discriminate].
  - split; [exists ValueError; reflexivity | discriminate].
Qed.

(** C7: when the date parses, the body is the normalised lines of each
    plain-text part joined with no separator, the parts joined with one
    newline; the parts [A], newline, [B] and [C] give [AB], newline, [C];
    no part gives the empty body. *)
Theorem parse_email_body (m : Message) (s : string) (d : datetime) :
  get m "Date" = Some s -> strptime s date_format = Some d ->
  exists em,
    parse_email strptime m = Ok em
    /\ body em = body_of_parts (extract_text_plain_parts m)
    /\ (extract_text_plain_parts m
        = [("A" ++ blank_marker ++ "B")%string; "C"]
        -> body em = ("AB" ++ blank_marker ++ "C")%string)
    /\ (extract_text_plain_parts m = [] -> body em = "").
Proof.
  intros Hs Hd. rewrite (parse_email_ok m s d Hs Hd).
  eexists. split; [reflexivity|]. simpl. repeat split.
  - intros ->. reflexivity.
  - intros ->. reflexivity.
Qed.

End ParserLaws.

Lemma parse_email_bad_date_witness :
  (exists err,
     parse_email RefStrptime.strptime bad_date_message = Raise err)
  /\ (exists err,
        parse_email RefStrptime.strptime no_date_message = Raise err).
Proof.
  split.
  - apply (parse_email_bad_date RefStrptime.strptime bad_date_message).
    right. exists "01/01/2024". split; reflexivity.
  - apply (parse_email_bad_date RefStrptime.strptime no_date_message).
    left. reflexivity.
Defined.

Lemma parse_email_body_witness :
  exists em,
    parse_email RefStrptime.strptime two_part_message = Ok em
    /\ body em = ("AB" ++ blank_marker ++ "C")%string.
Proof.
  destruct (parse_email_body RefStrptime.strptime two_part_message good_date
              (mk_datetime 2024 1 1 10 0 0 0) eq_refl eq_refl)
    as (em & E & _ & B & _).
  exists em. split; [exact E | apply B; reflexivity].
Defined.

(** C4: on a message with a good date and no Subject header the subject of
    the returned [Email] is [None], the value that [get] gave, and not the
    empty string. *)
Theorem parse_email_no_subject :
  get no_subject_message "Subject" = None
  /\ exists em,
       parse_email RefStrptime.strptime no_subject_message = Ok em
       /\ em = mk_Email (Some (mk_datetime 2024 1 1 10 0 0 0)) None "hi" [] []
       /\ subject em = None
       /\ subject em <> Some "".
Proof.
  split; [reflexivity|]. eexists. split; [vm_compute; reflexivity|].
  split; [reflexivity|]. split; [reflexivity | discriminate].
Qed.

(** ** Further laws of the line normaliser *)

Lemma length_drop_blanks (lst : list string) :
  List.length (drop_blanks lst) <= List.length lst.
Proof.
  induction lst as [|x rest IH]; simpl; [lia|].
  destruct (non_empty x); simpl; lia.
Qed.

Lemma length_trim (lst : list string) :
  List.length (trim lst) <= List.length lst.
Proof.
  unfold trim. destruct (existsb non_empty lst); [|lia].
  rewrite length_rev.
  pose proof (length_drop_blanks (rev (drop_blanks lst))) as H1.
  rewrite length_rev in H1.
  pose proof (length_drop_blanks lst). lia.
Qed.

Lemma length_collapse_from (lst : list string) (run : nat) :
  List.length (collapse_from run lst) <= List.length lst.
Proof.
  revert run. induction lst as [|x rest IH]; intros run; simpl; [lia|].
  destruct (non_empty x); simpl.
  - specialize (IH 0). lia.
  - destruct (run <? 2); simpl.
    + specialize (IH (S run)). lia.
    + specialize (IH run). lia.
Qed.

(** X1: the output is never longer than the input. *)
Theorem process_list_length (lst : list string) :
  List.length (process_list lst) <= List.length lst.
Proof.
  rewrite process_list_eq, length_map.
  pose proof (length_collapse_from (trim lst) 0).
  pose proof (length_trim lst). lia.
Qed.

(** X2: no entry of the output is the empty string. *)
Theorem process_list_no_empty_string (lst : list string) :
  ~ In "" (process_list lst).
Proof.
  unfold process_list. intros H. apply in_map_iff in H.
  destruct H as (x & Hx & _). destruct x; discriminate Hx.
Qed.

Lemma leading_blanks_collapse_from (lst : list string) (run : nat) :
  leading_blanks (collapse_from run lst) <= 2 - run.
Proof.
  revert run.
  induction lst as [|x rest IH]; intros run;
    cbn [collapse_from leading_blanks]; [lia|].
  destruct (non_empty x) eqn:Hx; cbn [leading_blanks].
  - rewrite Hx. lia.
  - destruct (run <? 2) eqn:Hr; cbn [leading_blanks].
    + rewrite Hx. apply Nat.ltb_lt in Hr. specialize (IH (S run)). lia.
    + apply IH.
Qed.

Lemma collapse_from_no_three (lst : list string) (run : nat)
  (p q : list string) (x y z : string) :
  collapse_from run lst = p ++ x :: y :: z :: q ->
  non_empty x = false -> non_empty y = false -> non_empty z = false ->
  False.
Proof.
  revert run p. induction lst as [|x0 rest IH]; intros run p E Hx Hy Hz.
  - destruct p; discriminate E.
  - simpl in E. destruct (non_empty x0) eqn:H0.
    + destruct p as [|x1 p']; simpl in E; injection E as E1 E2.
      * subst x0. rewrite Hx in H0. discriminate.
      * apply (IH 0 p' E2 Hx Hy Hz).
    + destruct (run <? 2) eqn:Hr.
      * destruct p as [|x1 p']; simpl in E; injection E as E1 E2.
        -- pose proof (leading_blanks_collapse_from rest (S run)) as L.
           rewrite E2 in L. cbn [leading_blanks] in L.
           rewrite Hy, Hz in L. apply Nat.ltb_lt in Hr. lia.
        -- apply (IH (S run) p' E2 Hx Hy Hz).
      * apply (IH run p E Hx Hy Hz).
Qed.

(** X3: the output never holds three blank entries in a row. *)
Theorem process_list_no_three_blanks (lst p q : list string)
  (x y z : string) :
  process_list lst = p ++ x :: y :: z :: q ->
  ~ (blank x /\ blank y /\ blank z).
Proof.
  rewrite process_list_eq. intros E (Hx & Hy & Hz).
  apply map_eq_app in E. destruct E as (p' & r & E & _ & Er).
  destruct r as [|x' [|y' [|z' q']]]; try discriminate Er.
  simpl in Er. injection Er as <- <- <- _.
  apply non_empty_false_iff in Hx, Hy, Hz.
  rewrite non_empty_canonicalize in Hx, Hy, Hz.
  apply (collapse_from_no_three _ _ _ _ _ _ _ E Hx Hy Hz).
Qed.

Lemma process_list_no_three_blanks_witness :
  ~ (blank " " /\ blank blank_marker /\ blank "b").
Proof.
  apply (process_list_no_three_blanks ["a"; " "; ""; ""; "b"] ["a"] []).
  reflexivity.
Defined.

(** X4: a run of blank lines of any length between two non-blank lines [a]
    and [b] leaves its first two lines, fewer when it has fewer, between
    them: one blank line is kept, and neighbours stay neighbours. *)
Theorem interior_run_law (pre run post : list string) (a b : string) :
  ~ blank a -> ~ blank b -> Forall blank run ->
  exists front back kept,
    process_list (pre ++ [a]) = front ++ [a]
    /\ process_list (b :: post) = b :: back
    /\ process_list (pre ++ a :: run ++ b :: post)
       = front ++ a :: kept ++ b :: back
    /\ kept = map canonicalize (firstn 2 run)
    /\ List.length kept = Nat.min 2 (List.length run)
    /\ Forall blank kept.
Proof.
  intros Ha Hb Hr.
  apply non_empty_true_iff in Ha. apply non_empty_true_iff in Hb.
  destruct (process_list_run pre run post a b Ha Hb Hr)
    as (f & k & E1 & E2 & E3).
  exists f, k, (map canonicalize (firstn 2 run)).
  repeat split; try assumption.
  - rewrite length_map, length_firstn. reflexivity.
  - apply Forall_map. apply Forall_blank_firstn with (n := 2) in Hr.
    revert Hr. apply Forall_impl. intros x Hx.
    apply non_empty_false_iff. rewrite non_empty_canonicalize.
    apply non_empty_false_iff. assumption.
Qed.

Lemma interior_run_law_witness :
  exists front back,
    process_list ["x"; "a"; ""; "b"; ""; ""]
    = front ++ "a" :: [blank_marker] ++ "b" :: back.
Proof.
  assert (Ha : ~ blank "a") by (intros H; discriminate H).
  assert (Hb : ~ blank "b") by (intros H; discriminate H).
  assert (Hr : Forall blank [""]) by (repeat constructor).
  destruct (interior_run_law ["x"] [""] [""; ""] "a" "b" Ha Hb Hr)
    as (f & k & kept & _ & _ & E & -> & _).
  exists f, k. exact E.
Defined.

Lemma filter_all_blank (lst : list string) :
  Forall blank lst -> filter non_empty lst = [].
Proof.
  induction 1 as [|x rest Hx _ IH]; simpl; [reflexivity|].
  apply non_empty_false_iff in Hx. rewrite Hx. exact IH.
Qed.

(** X5: the output is empty for the empty list and for no other. *)
Theorem process_list_nil_iff (lst : list string) :
  process_list lst = [] <-> lst = [].
Proof.
  split; [|intros ->; reflexivity].
  intros E. destruct (existsb non_empty lst) eqn:H.
  - assert (F : filter non_empty lst = []).
    { rewrite <- (filter_trim lst), <- (filter_collapse_from (trim lst) 0).
      rewrite <- filter_map_canonicalize, <- process_list_eq, E.
      reflexivity. }
    apply existsb_exists in H. destruct H as (x & Hin & Hx).
    assert (Hf : In x (filter non_empty lst))
      by (apply filter_In; split; assumption).
    rewrite F in Hf. destruct Hf.
  - apply Forall_blank_existsb in H.
    rewrite (process_list_all_blank lst H) in E.
    destruct lst as [|x [|y r]]; [reflexivity | discriminate E..].
Qed.

Lemma subseq_refl (lst : list string) : subseq lst lst.
Proof. induction lst; constructor; assumption. Qed.

Lemma subseq_app (k1 l1 k2 l2 : list string) :
  subseq k1 l1 -> subseq k2 l2 -> subseq (k1 ++ k2) (l1 ++ l2).
Proof.
  intros H1 H2. induction H1; simpl; [assumption | constructor ..];
    assumption.
Qed.

Lemma subseq_rev (kept lst : list string) :
  subseq kept lst -> subseq (rev kept) (rev lst).
Proof.
  induction 1 as [|x k l _ IH | x k l _ IH]; simpl.
  - constructor.
  - rewrite <- (app_nil_r (rev k)). apply subseq_app; [exact IH|].
    constructor. constructor.
  - apply subseq_app; [exact IH | apply subseq_refl].
Qed.

Lemma subseq_trans (a b c : list string) :
  subseq a b -> subseq b c -> subseq a c.
Proof.
  intros Hab Hbc. revert a Hab.
  induction Hbc as [|x k l _ IH | x k l _ IH]; intros a Hab.
  - exact Hab.
  - constructor. apply IH. exact Hab.
  - inversion Hab; subst; constructor; apply IH; assumption.
Qed.

Lemma subseq_Forall (P : string -> Prop) (kept lst : list string) :
  subseq kept lst -> Forall P lst -> Forall P kept.
Proof.
  induction 1 as [|x k l _ IH | x k l _ IH]; intros H.
  - constructor.
  - inversion H; subst. apply IH. assumption.
  - inversion H; subst. constructor; [|apply IH]; assumption.
Qed.

Lemma subseq_drop_blanks (lst : list string) : subseq (drop_blanks lst) lst.
Proof.
  induction lst as [|x rest IH]; simpl; [constructor|].
  destruct (non_empty x); [apply subseq_refl | constructor; exact IH].
Qed.

Lemma subseq_trim (lst : list string) : subseq (trim lst) lst.
Proof.
  unfold trim. destruct (existsb non_empty lst); [|apply subseq_refl].
  apply subseq_trans with (b := drop_blanks lst);
    [|apply subseq_drop_blanks].
  rewrite <- (rev_involutive (drop_blanks lst)) at 2.
  apply subseq_rev. apply subseq_drop_blanks.
Qed.

Lemma subseq_collapse_from (lst : list string) (run : nat) :
  subseq (collapse_from run lst) lst.
Proof.
  revert run. induction lst as [|x rest IH]; intros run; simpl.
  - constructor.
  - destruct (non_empty x); [constructor; apply IH|].
    destruct (run <? 2); constructor; apply IH.
Qed.

Lemma subseq_kept (lst : list string) :
  subseq (collapse_from 0 (trim lst)) lst.
Proof.
  apply subseq_trans with (b := trim lst);
    [apply subseq_collapse_from | apply subseq_trim].
Qed.

(** X6: the output is a selection of the input lines in their order, with
    only the empty strings among them rewritten to the newline marker:
    nothing is added, moved or otherwise changed. *)
Theorem process_list_selects (lst : list string) :
  exists kept,
    subseq kept lst /\ process_list lst = map canonicalize kept.
Proof.
  exists (collapse_from 0 (trim lst)). split; [|apply process_list_eq].
  apply subseq_kept.
Qed.

(** *** Trimming twice *)

Lemma rstrip_tail (c : ascii) (t : string) :
  PyStr.rstrip (String c t) = String c t -> PyStr.rstrip t = t.
Proof.
  simpl. destruct (PyStr.rstrip t) as [|d u] eqn:E.
  - destruct (PyStr.isspace c); intros H; [discriminate H|].
    injection H as <-. reflexivity.
  - intros H. injection H as <-. reflexivity.
Qed.

Lemma rstrip_idem (s : string) :
  PyStr.rstrip (PyStr.rstrip s) = PyStr.rstrip s.
Proof.
  induction s as [|c t IH]; simpl; [reflexivity|].
  destruct (PyStr.rstrip t) as [|d u] eqn:E.
  - destruct (PyStr.isspace c) eqn:Hc; simpl; [reflexivity|].
    rewrite Hc. reflexivity.
  - change (PyStr.rstrip (String c (String d u)))
      with (match PyStr.rstrip (String d u) with
            | EmptyString =>
                if PyStr.isspace c then EmptyString else String c EmptyString
            | t' => String c t'
            end).
    rewrite IH. reflexivity.
Qed.

Lemma rstrip_lstrip (s : string) :
  PyStr.rstrip s = s -> PyStr.rstrip (PyStr.lstrip s) = PyStr.lstrip s.
Proof.
  induction s as [|c t IH]; intros H; [reflexivity|].
  cbn [PyStr.lstrip]. destruct (PyStr.isspace c); [|exact H].
  apply IH. apply (rstrip_tail c t H).
Qed.

Lemma lstrip_idem (s : string) :
  PyStr.lstrip (PyStr.lstrip s) = PyStr.lstrip s.
Proof.
  induction s as [|c t IH]; simpl; [reflexivity|].
  destruct (PyStr.isspace c) eqn:Hc; [exact IH|]. simpl. rewrite Hc.
  reflexivity.
Qed.

Lemma strip_idem (s : string) : PyStr.strip (PyStr.strip s) = PyStr.strip s.
Proof.
  unfold PyStr.strip.
  rewrite (rstrip_lstrip (PyStr.rstrip s) (rstrip_idem s)).
  apply lstrip_idem.
Qed.

Lemma non_empty_strip (s : string) :
  non_empty (PyStr.strip s) = non_empty s.
Proof. unfold non_empty. rewrite strip_idem. reflexivity. Qed.

(** X7: on lines that were stripped first, as [parse_email] passes them,
    every entry of the output is the newline marker or one of the
    non-blank lines passed in. *)
Theorem process_list_of_stripped (lines : list string) :
  Forall (fun y => y = blank_marker
                   \/ (~ blank y /\ In y (map PyStr.strip lines)))
    (process_list (map PyStr.strip lines)).
Proof.
  rewrite process_list_eq.
  pose proof (subseq_kept (map PyStr.strip lines)) as Hsub.
  set (kept := collapse_from 0 (trim (map PyStr.strip lines))) in *.
  apply Forall_map.
  assert (H : Forall (fun y => In y (map PyStr.strip lines)) kept).
  { apply (subseq_Forall _ _ _ Hsub). apply Forall_forall. auto. }
  revert H. apply Forall_impl. intros y Hy.
  destruct y as [|c t] eqn:E; [left; reflexivity|]. right.
  rewrite <- E in *. replace (canonicalize y) with y by (subst; reflexivity).
  split; [|exact Hy].
  apply in_map_iff in Hy. destruct Hy as (x & Hx & _).
  unfold blank. rewrite <- Hx, strip_idem, Hx, E. discriminate.
Qed.

(** X8: when the input has a non-blank line, the output begins with the
    first non-blank line of the input and ends with the last one. *)
Theorem process_list_ends (lst : list string) :
  Exists (fun x => ~ blank x) lst ->
  hd "" (process_list lst) = hd "" (filter non_empty lst)
  /\ last (process_list lst) "" = last (filter non_empty lst) "".
Proof.
  intros H.
  assert (Hb : existsb non_empty lst = true).
  { apply Exists_exists in H. destruct H as (x & Hin & Hx).
    apply existsb_exists. exists x. split; [assumption|].
    apply non_empty_true_iff. assumption. }
  destruct (framed_decomposition lst Hb)
    as (lead & mid & trail & -> & Hl & Ht & Hh & Hz).
  rewrite (process_list_framed lead mid trail Hl Ht Hh Hz).
  destruct (process_list_framed_ends mid Hh Hz) as [E1 E2].
  rewrite E1, E2, !filter_app.
  rewrite (filter_all_blank lead Hl), (filter_all_blank trail Ht).
  rewrite app_nil_r. simpl.
  apply non_empty_true_iff in Hh. apply non_empty_true_iff in Hz.
  destruct mid as [|a m]; [discriminate Hh|].
  destruct (exists_last (l := a :: m)) as (m' & z & Hm); [discriminate|].
  split.
  - simpl in *. rewrite Hh. reflexivity.
  - rewrite Hm in *. rewrite last_last in Hz.
    rewrite filter_app. simpl. rewrite Hz, !last_last. reflexivity.
Qed.

Lemma process_list_ends_witness :
  hd "" (process_list [""; " "; "first"; ""; "last"; ""]) = "first"
  /\ last (process_list [""; " "; "first"; ""; "last"; ""]) "" = "last".
Proof.
  apply (process_list_ends [""; " "; "first"; ""; "last"; ""]).
  apply Exists_cons_tl. apply Exists_cons_tl. apply Exists_cons_hd.
  intros H. discriminate H.
Defined.

Lemma trailing_blanks_two (acc : list string) :
  2 <= trailing_blanks acc
  <-> exists p y z, acc = p ++ [y; z] /\ blank y /\ blank z.
Proof.
  unfold trailing_blanks. split.
  - intros H. rewrite <- (rev_involutive acc).
    destruct (rev acc) as [|z [|y r]]; simpl in H.
    + lia.
    + destruct (non_empty z); simpl in H; lia.
    + destruct (non_empty z) eqn:Hz; [lia|].
      destruct (non_empty y) eqn:Hy; [lia|].
      exists (rev r), y, z. simpl. rewrite <- app_assoc.
      repeat split; apply non_empty_false_iff; assumption.
  - intros (p & y & z & -> & Hy & Hz).
    apply non_empty_false_iff in Hy. apply non_empty_false_iff in Hz.
    rewrite rev_app_distr. simpl. rewrite Hy, Hz. lia.
Qed.

(** X9: one turn of the collapsing loop leaves the list as it is exactly
    when the item is blank and the list ends with two blank entries; in
    every other case it appends the item. *)
Theorem collapse_step_rule (collapsed_list : list string) (item : string) :
  (collapse_step collapsed_list item = collapsed_list
   /\ blank item
   /\ exists p y z, collapsed_list = p ++ [y; z] /\ blank y /\ blank z)
  \/ (collapse_step collapsed_list item = collapsed_list ++ [item]
      /\ ~ (blank item
            /\ exists p y z,
                 collapsed_list = p ++ [y; z] /\ blank y /\ blank z)).
Proof.
  rewrite collapse_step_spec.
  destruct (non_empty item) eqn:Hi; simpl.
  - right. split; [reflexivity|]. intros [Hb _].
    apply non_empty_false_iff in Hb. rewrite Hb in Hi. discriminate.
  - destruct (trailing_blanks collapsed_list <? 2) eqn:Ht.
    + right. split; [reflexivity|]. intros [_ H].
      apply trailing_blanks_two in H. apply Nat.ltb_lt in Ht. lia.
    + left. split; [reflexivity|]. split.
      * apply non_empty_false_iff. assumption.
      * apply trailing_blanks_two. apply Nat.ltb_ge in Ht. assumption.
Qed.

(** ** What one part gives to the body *)

Lemma process_list_fixed (lst : list string) :
  Forall (fun x => ~ blank x) lst ->
  map canonicalize (collapse_from 0 (trim lst)) = lst.
Proof.
  intros H.
  assert (T : trim lst = lst).
  { destruct lst as [|a m]; [reflexivity|].
    pose proof (trim_framed [] (a :: m) []) as P.
    rewrite app_nil_r in P. apply P; try constructor.
    - inversion H; assumption.
    - apply (proj1 (Forall_forall _ _) H).
      destruct (exists_last (l := a :: m)) as (m' & z & ->); [discriminate|].
      rewrite last_last. apply in_or_app. right. left. reflexivity. }
  rewrite T, collapse_from_no_blank by assumption.
  apply map_canonicalize_no_blank. assumption.
Qed.

(** X12: a part whose lines are all blank gives one newline when it has
    one line and two newlines when it has more, not the empty string; it
    gives the empty string only when it has no line. *)
Theorem part_message_blank_lines (part : string) :
  Forall blank (PyStr.splitlines part) ->
  part_message part
  = PyStr.join ""
      (repeat blank_marker
         (Nat.min 2 (List.length (PyStr.splitlines part)))).
Proof.
  unfold part_message. generalize (PyStr.splitlines part). intros lines H.
  assert (Hs : Forall blank (map PyStr.strip lines)).
  { apply Forall_map. revert H. apply Forall_impl. intros x Hx.
    unfold blank in *. rewrite strip_idem. exact Hx. }
  rewrite (process_list_all_blank _ Hs). f_equal.
  destruct H as [|x ? Hx [|y ? Hy _]]; simpl.
  - reflexivity.
  - unfold blank in Hx. rewrite Hx. reflexivity.
  - unfold blank in Hx, Hy. rewrite Hx, Hy. reflexivity.
Qed.

Lemma part_message_blank_lines_witness :
  part_message (" " ++ blank_marker ++ blank_marker ++ blank_marker)%string
  = (blank_marker ++ blank_marker)%string.
Proof.
  apply (part_message_blank_lines
           (" " ++ blank_marker ++ blank_marker ++ blank_marker)%string).
  repeat constructor.
Defined.

(** X13: a part with no blank line gives its lines, each stripped, one
    after the other with nothing between them: the line breaks are lost. *)
Theorem part_message_no_blank_line (part : string) :
  Forall (fun x => ~ blank x) (PyStr.splitlines part) ->
  part_message part
  = PyStr.join "" (map PyStr.strip (PyStr.splitlines part)).
Proof.
  unfold part_message. generalize (PyStr.splitlines part). intros lines H.
  rewrite process_list_eq, process_list_fixed; [reflexivity|].
  apply Forall_map. revert H. apply Forall_impl. intros x Hx.
  apply non_empty_true_iff. rewrite non_empty_strip.
  apply non_empty_true_iff. assumption.
Qed.

Lemma part_message_no_blank_line_witness :
  part_message ("  Dear all, " ++ blank_marker ++ "see below.")%string
  = "Dear all,see below.".
Proof.
  apply (part_message_no_blank_line
           ("  Dear all, " ++ blank_marker ++ "see below.")%string).
  repeat constructor; intros H; discriminate H.
Defined.

(** ** Further laws of the walker and the orchestrator *)

(** X18: a container inside a container yields what its children would
    yield in its place; the headers and the content type of containers play
    no part. *)
Theorem walker_flattens (h h' : list (string * string)) (ct ct' : string)
  (before inner after : list Message) :
  extract_text_plain_parts
    (Multipart h ct (before ++ Multipart h' ct' inner :: after))
  = extract_text_plain_parts (Multipart h ct (before ++ inner ++ after)).
Proof.
  cbn [extract_text_plain_parts].
  rewrite !flat_map_app. cbn [flat_map extract_text_plain_parts].
  reflexivity.
Qed.

Section OrchestratorLaws.

Variable strptime : string -> string -> option datetime.



(** X19: a leaf of any type but text/plain, wherever it sits among the
    children of the message, changes nothing in what [parse_email]
    gives. *)
Theorem parse_email_ignores_other_leaves (h h' : list (string * string))
  (ct ct' payload : string) (before after : list Message) :
  ct' <> "text/plain" ->
  parse_email strptime
    (Multipart h ct (before ++ Leaf h' ct' payload :: after))
  = parse_email strptime (Multipart h ct (before ++ after)).
Proof.
  intros Hct. apply String.eqb_neq in Hct.
  unfold parse_email. cbn [extract_text_plain_parts].
  rewrite !flat_map_app. cbn [flat_map extract_text_plain_parts].
  rewrite Hct. reflexivity.
Qed.

End OrchestratorLaws.

Lemma parse_email_ignores_other_leaves_witness :
  parse_email RefStrptime.strptime
    (Multipart [("Date", good_date)] "multipart/mixed"
       ([Leaf [] "text/plain" "A"]
        ++ Leaf [] "application/pdf" "JVBERi0x"
           :: [Leaf [] "text/plain" "C"]))
  = parse_email RefStrptime.strptime
      (Multipart [("Date", good_date)] "multipart/mixed"
         ([Leaf [] "text/plain" "A"] ++ [Leaf [] "text/plain" "C"])).
Proof.
  apply parse_email_ignores_other_leaves. intros H. discriminate H.
Defined.

(** ** The entry point *)

Section MainLaws.

Variable strptime : string -> string -> option datetime.
Variable get_top_message : string -> outcome Message.

Lemma main_loop_parsed (ids : list string) (ems : list Email)
  (rest : list (option string)) (acc : list Email) (fetched : list string) :
  Forall2 (parsed strptime get_top_message) ids ems ->
  main_loop strptime get_top_message (map Some ids ++ rest) acc fetched
  = main_loop strptime get_top_message rest (acc ++ ems) (fetched ++ ids).
Proof.
  intros H. revert acc fetched.
  induction H as [|id em ids ems (m & Hm & He) _ IH]; intros acc fetched.
  - simpl. rewrite !app_nil_r. reflexivity.
  - simpl. rewrite Hm, He, IH, <- !app_assoc. reflexivity.
Qed.

(** X14: when every listed thread is fetched and parsed, [_emails] ends
    with one [Email] for each thread, in the order of the listing, every
    thread has been fetched once in that order, and nothing is printed. *)
Theorem main_all_parsed (ids : list string) (ems : list Email) :
  Forall2 (parsed strptime get_top_message) ids ems ->
  main strptime get_top_message (Returned (Some (map Some ids)))
  = mk_Run ems ids None.
Proof.
  intros H. unfold main, get_threads.
  rewrite <- (app_nil_r (map Some ids)).
  rewrite (main_loop_parsed ids ems [] [] [] H). reflexivity.
Qed.

(** X15: a request that fails ends the run: the handler of its exception
    prints, [_emails] keeps the threads parsed before it, and no thread
    listed after it is fetched. *)
Theorem main_stops_at_failed_request (before : list string)
  (ems : list Email) (thread_id : string) (after : list (option string))
  (handler : Handler) :
  Forall2 (parsed strptime get_top_message) before ems ->
  (get_top_message thread_id = RaisedHttpError
   /\ handler = HttpErrorHandler)
  \/ (get_top_message thread_id = RaisedException
      /\ handler = ExceptionHandler) ->
  main strptime get_top_message
    (Returned (Some (map Some before ++ Some thread_id :: after)))
  = mk_Run ems (before ++ [thread_id]) (Some handler).
Proof.
  intros H Hf. unfold main, get_threads.
  rewrite (main_loop_parsed before ems _ [] [] H). simpl.
  destruct Hf as [[-> ->] | [-> ->]]; reflexivity.
Qed.

(** X16: one message whose Date header is missing, or has a value that
    [strptime] rejects, ends the run in the same way, through the general
    handler: the threads listed after it are not fetched. *)
Theorem main_stops_at_bad_date (before : list string) (ems : list Email)
  (thread_id : string) (m : Message) (after : list (option string)) :
  Forall2 (parsed strptime get_top_message) before ems ->
  get_top_message thread_id = Returned m ->
  get m "Date" = None
  \/ (exists s, get m "Date" = Some s /\ strptime s date_format = None) ->
  main strptime get_top_message
    (Returned (Some (map Some before ++ Some thread_id :: after)))
  = mk_Run ems (before ++ [thread_id]) (Some ExceptionHandler).
Proof.
  intros H Hm Hd. unfold main, get_threads.
  rewrite (main_loop_parsed before ems _ [] [] H). simpl. rewrite Hm.
  assert (E : exists err, parse_email strptime m = Raise err).
  { unfold parse_email, call_strptime.
    destruct Hd as [Hd | (s & Hd & Hs)]; rewrite Hd; [|rewrite Hs];
      eexists; reflexivity. }
  destruct E as (err & ->). reflexivity.
Qed.

Lemma main_loop_count (threads : list (option string)) (acc : list Email)
  (fetched : list string) :
  let r := main_loop strptime get_top_message threads acc fetched in
  List.length (run_emails r) <= List.length acc + List.length threads
  /\ (run_printed r = None
      <-> List.length (run_emails r)
          = List.length acc + List.length threads).
Proof.
  revert acc fetched. induction threads as [|t rest IH]; intros acc fetched.
  - simpl. split; [lia|]. split; [intros _; lia | reflexivity].
  - assert (stop : forall f h,
              let r := mk_Run acc f (Some h) in
              List.length (run_emails r)
              <= List.length acc + List.length (t :: rest)
              /\ (run_printed r = None
                  <-> List.length (run_emails r)
                      = List.length acc + List.length (t :: rest))).
    { intros f h. simpl. split; [lia|]. split; [discriminate | lia]. }
    cbn [main_loop]. destruct t as [id|]; [|apply stop].
    destruct (get_top_message id) as [m| |]; try apply stop.
    destruct (parse_email strptime m) as [em|err]; [|apply stop].
    specialize (IH (acc ++ [em]) (fetched ++ [id])).
    rewrite length_app in IH. simpl in *.
    replace (List.length acc + S (List.length rest))
      with (List.length acc + 1 + List.length rest) by lia.
    exact IH.
Qed.

(** X17: a run prints nothing exactly when the listing request returned
    and [_emails] ends with as many entries as threads were listed; a
    response without the "threads" key lists none. *)
Theorem main_silent_iff (listing : outcome (option (list (option string)))) :
  run_printed (main strptime get_top_message listing) = None
  <-> exists threads_entry,
        listing = Returned threads_entry
        /\ List.length
             (run_emails (main strptime get_top_message listing))
           = List.length (get_threads threads_entry).
Proof.
  destruct listing as [entry| |]; simpl.
  - pose proof (main_loop_count (get_threads entry) [] []) as [_ H].
    simpl in H. rewrite H. split.
    + intros E. exists entry. split; [reflexivity | exact E].
    + intros (e & He & E). injection He as <-. exact E.
  - split; [discriminate|]. intros (e & He & _). discriminate He.
  - split; [discriminate|]. intros (e & He & _). discriminate He.
Qed.

End MainLaws.

Lemma sample_parsed :
  Forall2 (parsed RefStrptime.strptime sample_service) ["t1"; "t2"]
    [mk_Email (Some (mk_datetime 2024 1 1 10 0 0 0)) (Some "Hi")
       ("AB" ++ blank_marker ++ "C")%string [] [];
     mk_Email (Some (mk_datetime 2024 1 1 10 0 0 0)) (Some "Hi")
       ("Hello" ++ blank_marker ++ blank_marker ++ "World")%string [] []].
Proof.
  constructor; [|constructor; [|constructor]].
  - exists two_part_message. split; reflexivity.
  - exists scenario_message. split; reflexivity.
Qed.

Lemma main_all_parsed_witness :
  exists ems,
    main RefStrptime.strptime sample_service
      (Returned (Some [Some "t1"; Some "t2"]))
    = mk_Run ems ["t1"; "t2"] None
    /\ List.length ems = 2.
Proof.
  eexists. split.
  - apply (main_all_parsed RefStrptime.strptime sample_service
             ["t1"; "t2"] _ sample_parsed).
  - reflexivity.
Defined.

Lemma main_stops_at_failed_request_witness :
  exists ems,
    main RefStrptime.strptime sample_service
      (Returned (Some [Some "t1"; Some "t2"; Some "t4"; Some "t1"]))
    = mk_Run ems ["t1"; "t2"; "t4"] (Some HttpErrorHandler)
    /\ List.length ems = 2.
Proof.
  eexists. split.
  - apply (main_stops_at_failed_request RefStrptime.strptime sample_service
             ["t1"; "t2"] _ "t4" [Some "t1"] HttpErrorHandler
             sample_parsed).
    left. split; reflexivity.
  - reflexivity.
Defined.

Lemma main_stops_at_bad_date_witness :
  exists ems,
    main RefStrptime.strptime sample_service
      (Returned (Some [Some "t1"; Some "t2"; Some "t3"; Some "t1"]))
    = mk_Run ems ["t1"; "t2"; "t3"] (Some ExceptionHandler)
    /\ List.length ems = 2.
Proof.
  eexists. split.
  - apply (main_stops_at_bad_date RefStrptime.strptime sample_service
             ["t1"; "t2"] _ "t3" bad_date_message [Some "t1"]
             sample_parsed eq_refl).
    right. exists "01/01/2024". split; reflexivity.
  - reflexivity.
Defined.
